(** * Hydra queue runner: the scheduler state of [state.hh]

    A shallow embedding of the data model declared in
    [src/hydra-queue-runner/state.hh] (status enumerations, remote build
    results, jobsets, builds, steps, machines and the retry constants of the
    coordinator), followed by the properties the specification states about
    them.

    Conventions.
    - [time_t], [int], [unsigned int] and [BuildID] values are integers in [Z];
      conversions between them are written out where the header performs one.
    - [std::set<std::string>] is a [gset string], [std::map<time_t, time_t>] a
      [gmap Z Z].
    - [assert] aborts the process: an operation guarded by one returns
      [option], [None] standing for the abort.
    - [double] arithmetic is kept abstract (class [DoubleOps]); statements
      about [shareUsed] hold for every interpretation of the conversions and
      of the division, the IEEE one included. *)

From Stdlib Require Import ZArith QArith List Bool Lia.
From stdpp Require Import base decidable option list gmap fin_maps fin_sets
  strings sorting.

Local Open Scope Z_scope.

(* ===================================================================== *)
(** * Part I: definitions                                                 *)
(* ===================================================================== *)

(** ** Machine integers *)

(** [typedef unsigned int BuildID;] on the 32-bit [unsigned int] of the
    platforms the queue runner is built for. *)
Definition uint_bits : Z := 32.
Definition UINT_MAX : Z := 2 ^ uint_bits - 1.
Definition INT_MIN : Z := - 2 ^ (uint_bits - 1).
Definition INT_MAX : Z := 2 ^ (uint_bits - 1) - 1.

Definition is_uint (z : Z) : bool := (0 <=? z) && (z <=? UINT_MAX).
Definition is_int (z : Z) : bool := (INT_MIN <=? z) && (z <=? INT_MAX).

(** Conversion of an [int] to [unsigned int]: reduction modulo [2^32]. *)
Definition int_to_uint (z : Z) : Z := z mod 2 ^ uint_bits.

(** [std::numeric_limits<BuildID>::max()] *)
Definition BuildID_max : Z := UINT_MAX.

(** ** Status enumerations *)

(** [typedef enum { bsSuccess = 0, ... } BuildStatus;] *)
Inductive BuildStatus : Type :=
  | bsSuccess
  | bsFailed
  | bsDepFailed
  | bsAborted
  | bsFailedWithOutput
  | bsTimedOut
  | bsUnsupported
  | bsLogLimitExceeded.

(** The enumerator values. *)
Definition BuildStatus_code (s : BuildStatus) : Z :=
  match s with
  | bsSuccess => 0
  | bsFailed => 1
  | bsDepFailed => 2
  | bsAborted => 3
  | bsFailedWithOutput => 6
  | bsTimedOut => 7
  | bsUnsupported => 9
  | bsLogLimitExceeded => 10
  end.

(** [typedef enum { bssSuccess = 0, ... , bssBusy = 100 } BuildStepStatus;] *)
Inductive BuildStepStatus : Type :=
  | bssSuccess
  | bssFailed
  | bssAborted
  | bssTimedOut
  | bssCachedFailure
  | bssUnsupported
  | bssLogLimitExceeded
  | bssBusy.

Definition BuildStepStatus_code (s : BuildStepStatus) : Z :=
  match s with
  | bssSuccess => 0
  | bssFailed => 1
  | bssAborted => 4
  | bssTimedOut => 7
  | bssCachedFailure => 8
  | bssUnsupported => 9
  | bssLogLimitExceeded => 10
  | bssBusy => 100
  end.

(** The header annotates [bssBusy] with [// not stored]: it marks a step that
    is still running and is the only enumerator that is not a status a
    finished step is recorded with. *)
Definition BuildStepStatus_stored (s : BuildStepStatus) : bool :=
  match s with
  | bssBusy => false
  | _ => true
  end.

Global Instance BuildStatus_eq_dec : EqDecision BuildStatus.
Proof. solve_decision. Defined.

Global Instance BuildStepStatus_eq_dec : EqDecision BuildStepStatus.
Proof. solve_decision. Defined.

(** ** Remote build results *)

Module nix.

(** Modelled from the spec: the status type of [nix::BuildResult], declared
    in the package manager's headers and not in this repository.  The spec
    lists the statuses a remote build result carries: success, transient
    failure, misc failure, permanent failure, timeout, log-limit-exceeded
    and output-rejected; [TransientFailure] and [MiscFailure] are the two
    the header names. *)
Inductive Status : Type :=
  | Success
  | TransientFailure
  | MiscFailure
  | PermanentFailure
  | TimedOut
  | LogLimitExceeded
  | OutputRejected.

Global Instance Status_eq_dec : EqDecision Status.
Proof. solve_decision. Defined.

(** [nix::Derivation]; the header reads only [drv.platform]. *)
Record Derivation : Type := mkDerivation { platform : string }.

End nix.

(** [struct RemoteResult : nix::BuildResult] *)
Module RemoteResult.

Record t : Type := mk {
  status : nix.Status;
  startTime : Z;
  stopTime : Z;
  logFile : string
}.

(** [return status == TransientFailure || status == MiscFailure;] *)
Definition canRetry (r : t) : bool :=
  bool_decide (status r = nix.TransientFailure)
  || bool_decide (status r = nix.MiscFailure).

End RemoteResult.

(** ** Steps and machines *)

(** A loop [for (auto & f : xs) if (cond f) return false;] followed by the
    statements [rest]. *)
Fixpoint for_return_false {A : Type} (xs : list A) (cond : A → bool)
    (rest : bool) : bool :=
  match xs with
  | [] => rest
  | f :: xs' => if cond f then false else for_return_false xs' cond rest
  end.

Module Step.

(** The immutable part of [struct Step]. *)
Record t : Type := mk {
  drvPath : string;
  drv : nix.Derivation;
  requiredSystemFeatures : gset string;
  preferLocalBuild : bool;
  systemType : string
}.

(** The members of a [std::set<std::string>] in the order the set holds
    them: ascending in the byte-wise order of [std::string]. *)
Definition sorted_features (features : gset string) : list string :=
  merge_sort String.le (elements features).

(** Modelled from the spec: the computation of [systemType], done where a
    step is created (outside the header, which only says [// concatenation
    of drv.platform and requiredSystemFeatures]).  The spec: [systemType] is
    the platform concatenated with the sorted required features. *)
Definition mkSystemType (platform : string) (features : gset string)
    : string :=
  platform +:+ foldr String.append "" (sorted_features features).

(** Modelled from the spec: a step as the queue monitor creates it, with
    [systemType] derived from the derivation's platform and the required
    system features. *)
Definition create (drvPath : string) (drv : nix.Derivation)
    (requiredSystemFeatures : gset string) (preferLocalBuild : bool) : t :=
  mk drvPath drv requiredSystemFeatures preferLocalBuild
     (mkSystemType (nix.platform drv) requiredSystemFeatures).

(** [struct Step::State], the mutable part of a step.  Steps are referred
    to by derivation path, builds by id, jobsets by (project, jobset) name.
    A member without an initialiser holds no defined value after
    construction: [lowestShareUsed] is [None] until assigned.  The two
    [system_time] members are value-initialised to the clock's epoch. *)
Record State {D : Type} : Type := mkState {
  created : bool;
  deps : gset string;
  rdeps : list string;
  builds : list Z;
  jobsets : gset (string * string);
  tries : Z;
  after : Z;
  highestGlobalPriority : Z;
  lowestShareUsed : option D;
  highestLocalPriority : Z;
  lowestBuildID : Z;
  runnableSince : Z
}.
Global Arguments State : clear implicits.

(** A newly constructed [Step::State]: the default member initialisers. *)
Definition newState {D : Type} : State D :=
  mkState D false ∅ [] [] ∅ 0 0 0 None 0 BuildID_max 0.

End Step.

Module Machine.

(** [struct Machine]; [speedFactor] (a [float]) and the live [State] play no
    part in [supportsStep] and are left out. *)
Record t : Type := mk {
  enabled : bool;
  sshName : string;
  sshKey : string;
  systemTypes : gset string;
  supportedFeatures : gset string;
  mandatoryFeatures : gset string;
  maxJobs : Z;
  sshPublicHostKey : string
}.

(** The test of the first loop of [supportsStep]: the mandatory feature [f]
    is not required by the step and is not excused by
    [preferLocalBuild && f == "local"]. *)
Definition mandatory_missing (step : Step.t) (f : string) : bool :=
  bool_decide (f ∉ Step.requiredSystemFeatures step)
  && negb (Step.preferLocalBuild step && bool_decide (f = "local")).

(** The test of the second loop: the required feature [f] is not
    supported. *)
Definition unsupported (m : t) (f : string) : bool :=
  bool_decide (f ∉ supportedFeatures m).

(** [bool supportsStep(Step::ptr step)].  The two loops run over the
    elements of a [std::set]; each returns [false] at the first offending
    element. *)
Definition supportsStep (m : t) (step : Step.t) : bool :=
  if bool_decide (nix.platform (Step.drv step) ∉ systemTypes m) then false
  else
    for_return_false (elements (mandatoryFeatures m))
      (mandatory_missing step)
      (for_return_false (elements (Step.requiredSystemFeatures step))
         (unsupported m)
         true).

End Machine.

(** ** Jobsets *)

(** The [double] operations [Jobset::shareUsed] performs: the conversion of a
    [time_t], the conversion of an [unsigned int], and the division. *)
Class DoubleOps : Type := {
  double : Type;
  of_time_t : Z → double;
  of_uint : Z → double;
  fdiv : double → double → double
}.

Module Jobset.

(** [static const time_t schedulingWindow = 24 * 60 * 60;] *)
Definition schedulingWindow : Z := 24 * 60 * 60.

(** The private members [seconds{0}], [shares{1}] and [steps] (start time
    and duration of the most recent build steps). *)
Record t : Type := mk {
  seconds : Z;
  shares : Z;
  steps : gmap Z Z
}.

(** A freshly constructed jobset: the default member initialisers. *)
Definition new : t := mk 0 1 ∅.

(** [return (double) seconds / shares;] *)
Definition shareUsed `{DoubleOps} (j : t) : double :=
  fdiv (of_time_t (seconds j)) (of_uint (shares j)).

(** [shareUsed] with the division instrumented: [None] when the divisor is
    zero. *)
Definition shareUsed_checked `{DoubleOps} (j : t) : option double :=
  if bool_decide (shares j = 0) then None else Some (shareUsed j).

(** [assert(shares_ > 0); shares = shares_;] with the [int] argument
    converted to the [unsigned int] member. *)
Definition setShares (shares_ : Z) (j : t) : option t :=
  if bool_decide (shares_ > 0)
  then Some (mk (seconds j) (int_to_uint shares_) (steps j))
  else None.

(** [time_t getSeconds() { return seconds; }] *)
Definition getSeconds (j : t) : Z := seconds j.

(** The sum of the durations recorded in a window. *)
Definition total (w : gmap Z Z) : Z :=
  map_fold (λ _ duration acc, duration + acc) 0 w.

(** A start time is within the last 24 hours of [now]. *)
Definition in_window (now : Z) (entry : Z * Z) : Prop :=
  now - schedulingWindow < entry.1.

Global Instance in_window_dec now entry : Decision (in_window now entry).
Proof. unfold in_window. apply _. Defined.

(** Modelled from the spec: [Jobset::addStep], declared in the header and
    defined outside the header.  The spec:
    add [(startTime, duration)] to the jobset's window, a map from step
    start time to duration whose seconds [shareUsed] divides by the
    shares.  The entry is stored under its start time and its duration is
    added to [seconds]. *)
Definition addStep (startTime duration : Z) (j : t) : t :=
  mk (seconds j + duration) (shares j) (<[startTime := duration]> (steps j)).

(** Modelled from the spec: [Jobset::pruneSteps], declared in the header and
    defined outside the header.  The spec:
    the window retains the entries whose start time is within the last 24
    hours, and pruning makes expired entries stop counting.  The clock the
    function reads is the argument [now]; the durations of the entries that
    leave the window are taken off [seconds]. *)
Definition pruneSteps (now : Z) (j : t) : t :=
  let kept := filter (in_window now) (steps j) in
  let expired := filter (λ entry, ¬ in_window now entry) (steps j) in
  mk (seconds j - total expired) (shares j) kept.

(** The counter [seconds] agrees with the recorded window. *)
Definition consistent (j : t) : Prop := seconds j = total (steps j).

(** The states a jobset goes through: construction followed by calls of its
    member functions ([setShares] with an [int] argument that passes the
    assertion). *)
Inductive reachable : t → Prop :=
  | reachable_new : reachable new
  | reachable_setShares j shares_ j' :
      reachable j → is_int shares_ = true →
      setShares shares_ j = Some j' → reachable j'
  | reachable_addStep j startTime duration :
      reachable j → reachable (addStep startTime duration j)
  | reachable_pruneSteps j now :
      reachable j → reachable (pruneSteps now j).

(** The reachable states in which every step was recorded under a start
    time the window did not hold at that moment.  (The spec describes the
    window as a map from start time to duration and is silent on a second
    step with a start time already present.) *)
Inductive recorded : t → Prop :=
  | recorded_new : recorded new
  | recorded_setShares j shares_ j' :
      recorded j → is_int shares_ = true →
      setShares shares_ j = Some j' → recorded j'
  | recorded_addStep j startTime duration :
      recorded j → steps j !! startTime = None →
      recorded (addStep startTime duration j)
  | recorded_pruneSteps j now :
      recorded j → recorded (pruneSteps now j).

End Jobset.

(** ** The coordinator's retry constants *)

Module State.

(** [const unsigned int maxTries = 5;] *)
Definition maxTries : Z := 5.

(** [const unsigned int retryInterval = 60; // seconds] *)
Definition retryInterval : Z := 60.

(** [const float retryBackoff = 3.0;], the integer the literal denotes. *)
Definition retryBackoff : Z := 3.

(** [const unsigned int maxParallelCopyClosure = 4;] *)
Definition maxParallelCopyClosure : Z := 4.

(** What becomes of a step whose remote build failed in a retryable way. *)
Inductive RetryDecision : Type :=
  | TerminalFailure
  | RetryAfter (after : Z).

(** Modelled from the spec: the retry branch of the builder
    ([State::doBuildStep] and [State::builder], declared in the header and
    defined outside the header).  The spec:
    on a retryable result increment [tries]; if [tries > maxTries] convert
    to a non-retryable failure, else set
    [after = now + retryInterval * retryBackoff^(tries-1)] and make the step
    runnable again.  Returns the new [tries] and the decision. *)
Definition retryStep (now tries : Z) : Z * RetryDecision :=
  let tries' := tries + 1 in
  (tries',
   if bool_decide (tries' > maxTries) then TerminalFailure
   else RetryAfter (now + retryInterval * retryBackoff ^ (tries' - 1))).

End State.

(** ** Builds *)

Module Build.

(** [struct Build]; the references [toplevel] and [jobset] are left out. *)
Record t : Type := mk {
  id : Z;
  drvPath : string;
  outputs : gmap string string;
  projectName : string;
  jobsetName : string;
  jobName : string;
  timestamp : Z;
  maxSilentTime : Z;
  buildTimeout : Z;
  localPriority : Z;
  globalPriority : Z;
  finishedInDB : bool
}.

(** The field types: [BuildID id] and [int] priorities. *)
Definition well_typed (b : t) : Prop :=
  is_uint (id b) = true
  ∧ is_int (localPriority b) = true
  ∧ is_int (globalPriority b) = true.

(** [return projectName + ":" + jobsetName + ":" + jobName;] *)
Definition fullJobName (b : t) : string :=
  projectName b +:+ ":" +:+ jobsetName b +:+ ":" +:+ jobName b.

(** A build as it is constructed from a queue row: every field set by the
    caller except [finishedInDB], which has the initialiser [{false}]. *)
Definition create (id : Z) (drvPath : string) (outputs : gmap string string)
    (projectName jobsetName jobName : string)
    (timestamp maxSilentTime buildTimeout localPriority globalPriority : Z)
    : t :=
  mk id drvPath outputs projectName jobsetName jobName timestamp
     maxSilentTime buildTimeout localPriority globalPriority false.

Definition set_finishedInDB (v : bool) (b : t) : t :=
  mk (id b) (drvPath b) (outputs b) (projectName b) (jobsetName b)
     (jobName b) (timestamp b) (maxSilentTime b) (buildTimeout b)
     (localPriority b) (globalPriority b) v.

Definition set_priorities (local global : Z) (b : t) : t :=
  mk (id b) (drvPath b) (outputs b) (projectName b) (jobsetName b)
     (jobName b) (timestamp b) (maxSilentTime b) (buildTimeout b)
     local global (finishedInDB b).

(** The finalisation rows written to the database: build id and status. *)
Definition DB : Type := list (Z * BuildStatus).

(** Modelled from the spec: the operations that mutate a build, which live
    outside the header.  The spec: a build
    is mutated by the queue monitor (priority bumps) and by the outcome
    reducer (finalisation); finalising a build writes its status to the
    database and sets [finishedInDB], and a build is finalised in the
    database at most once. *)
Inductive op : Type :=
  | Finalize (status : BuildStatus)
  | BumpPriority (local global : Z).

Definition step (o : op) (st : t * DB) : t * DB :=
  let '(b, db) := st in
  match o with
  | Finalize status =>
      if finishedInDB b then (b, db)
      else (set_finishedInDB true b, db ++ [(id b, status)])
  | BumpPriority local global => (set_priorities local global b, db)
  end.

(** The states a build goes through under a sequence of operations, the
    initial one first. *)
Fixpoint trace (ops : list op) (st : t * DB) : list (t * DB) :=
  match ops with
  | [] => [st]
  | o :: ops' => st :: trace ops' (step o st)
  end.

Definition run (ops : list op) (st : t * DB) : t * DB :=
  fold_left (λ st o, step o st) ops st.

(** The number of places where a sequence of flags goes from [from] to
    [to]. *)
Fixpoint transitions (from to : bool) (flags : list bool) : nat :=
  match flags with
  | x :: ((y :: _) as rest) =>
      ((if bool_decide (x = from ∧ y = to) then 1 else 0)
       + transitions from to rest)%nat
  | _ => 0%nat
  end.

Definition flags (ops : list op) (st : t * DB) : list bool :=
  map (λ st, finishedInDB st.1) (trace ops st).

End Build.

(** ** Cached extrema of a step *)

(** A build strictly improves the extrema cached in a step state: its
    priorities lie strictly above the cached maxima and its id strictly below
    the cached minimum.  (A maximum rises, and a minimum falls, exactly when
    the value that joins lies strictly beyond it.) *)
Definition strictly_improves {D : Type} (b : Build.t) (s : Step.State D)
    : Prop :=
  Step.highestGlobalPriority s < Build.globalPriority b
  ∧ Step.highestLocalPriority s < Build.localPriority b
  ∧ Build.id b < Step.lowestBuildID s.

(** ** Concrete data for the examples *)

(** An interpretation of [double] by exact rationals. *)
Definition exact_double : DoubleOps :=
  {| double := Q; of_time_t := inject_Z; of_uint := inject_Z; fdiv := Qdiv |}.

(** A jobset with 10 shares that recorded two steps: 30 s started at time
    90000 and 50 s started at time 1000. *)
Definition example_jobset : Jobset.t :=
  Jobset.addStep 1000 50
    (Jobset.addStep 90000 30 (Jobset.mk 0 10 ∅)).

(** A build with the default priorities. *)
Definition example_build : Build.t :=
  Build.create 1 "/nix/store/hello.drv" ∅ "nixpkgs" "trunk" "hello"
    0 3600 36000 0 0.

(** A machine that mandates and supports "kvm", a larger one that mandates
    nothing, and a step that requires "kvm". *)
Definition example_machine : Machine.t :=
  Machine.mk true "root@build1" "/etc/keys/build1" {["x86_64-linux"]}
    {["kvm"; "big-parallel"]} {["kvm"]} 4 "".

Definition example_big_machine : Machine.t :=
  Machine.mk true "root@build2" "/etc/keys/build2"
    {["x86_64-linux"; "i686-linux"]}
    {["kvm"; "big-parallel"; "benchmark"]} ∅ 8 "".

Definition example_step : Step.t :=
  Step.mk "/nix/store/vm-test.drv" (nix.mkDerivation "x86_64-linux")
    {["kvm"]} false "x86_64-linuxkvm".





(** A string holds the separator [":"] of [Build::fullJobName]. *)
Fixpoint has_colon (s : string) : bool :=
  match s with
  | EmptyString => false
  | String c s' => Ascii.eqb c (Ascii.ascii_of_nat 58) || has_colon s'
  end.

(* ===================================================================== *)
(** * Part II: properties                                                 *)
(* ===================================================================== *)

(** ** Loops over sets *)

Lemma for_return_false_true {A : Type} (xs : list A) (cond : A → bool)
    (rest : bool) :
  for_return_false xs cond rest = true ↔
  (∀ x, x ∈ xs → cond x = false) ∧ rest = true.
Proof.
  induction xs as [|x xs IH]; simpl.
  - split; [intros ->; split; [intros x Hx; inversion Hx | done] | by intros [_ ->]].
  - destruct (cond x) eqn:Hc.
    + split; [done|]. intros [Hall _].
      specialize (Hall x (list_elem_of_here _ _)). congruence.
    + rewrite IH. split.
      * intros [Hall ->]. split; [|done].
        intros y Hy. apply elem_of_cons in Hy as [->|Hy]; auto.
      * intros [Hall ->]. split; [|done].
        intros y Hy. apply Hall. by apply list_elem_of_further.
Qed.

(** ** Machine capabilities *)

(** C1: [Machine::supportsStep] returns true exactly when the step's platform
    is one of the machine's system types, every mandatory feature of the
    machine is required by the step or is "local" while the step prefers a
    local build, and every feature the step requires is supported by the
    machine. *)
Theorem supportsStep_spec (m : Machine.t) (step : Step.t) :
  Machine.supportsStep m step = true ↔
    nix.platform (Step.drv step) ∈ Machine.systemTypes m
    ∧ (∀ f, f ∈ Machine.mandatoryFeatures m →
         f ∈ Step.requiredSystemFeatures step
         ∨ (f = "local" ∧ Step.preferLocalBuild step = true))
    ∧ (∀ f, f ∈ Step.requiredSystemFeatures step →
         f ∈ Machine.supportedFeatures m).
Proof.
  unfold Machine.supportsStep.
  case_bool_decide as Hplat.
  - split; [done|]. intros (Hin & _). done.
  - rewrite !for_return_false_true.
    assert (Hin : nix.platform (Step.drv step) ∈ Machine.systemTypes m).
    { destruct (decide (nix.platform (Step.drv step) ∈ Machine.systemTypes m));
        [done | contradiction]. }
    split.
    + intros (Hmand & Hreq & _). split; [done|]. split.
      * intros f Hf. specialize (Hmand f).
        rewrite elem_of_elements in Hmand. specialize (Hmand Hf).
        unfold Machine.mandatory_missing in Hmand.
        apply andb_false_iff in Hmand as [Hmand|Hmand].
        -- left. apply bool_decide_eq_false in Hmand.
           destruct (decide (f ∈ Step.requiredSystemFeatures step)); tauto.
        -- right. apply negb_false_iff, andb_true_iff in Hmand as [Hp Hl].
           apply bool_decide_eq_true in Hl. done.
      * intros f Hf. specialize (Hreq f).
        rewrite elem_of_elements in Hreq. specialize (Hreq Hf).
        unfold Machine.unsupported in Hreq.
        apply bool_decide_eq_false in Hreq.
        destruct (decide (f ∈ Machine.supportedFeatures m)); tauto.
    + intros (_ & Hmand & Hreq). split; [|split; [|done]].
      * intros f Hf. rewrite elem_of_elements in Hf.
        unfold Machine.mandatory_missing.
        destruct (Hmand f Hf) as [Hr | [-> Hp]].
        -- rewrite bool_decide_eq_false_2; [done | tauto].
        -- rewrite Hp, (bool_decide_eq_true_2 ("local" = "local")) by done. simpl.
           apply andb_false_r.
      * intros f Hf. rewrite elem_of_elements in Hf.
        unfold Machine.unsupported.
        rewrite bool_decide_eq_false_2; [done|].
        intros Hn. apply Hn, Hreq, Hf.
Qed.

(** ** Status codes *)

(** Membership of a literal in a literal list, and its refutation. *)
Ltac in_literals :=
  solve [repeat first [apply list_elem_of_here | apply list_elem_of_further]].

Ltac not_in_literals H :=
  exfalso; rewrite ?elem_of_cons, elem_of_nil in H;
  repeat destruct H as [H|H]; solve [discriminate H | lia | destruct H].

(** C2: the build-status codes are exactly 0 success, 1 failed, 2 dep-failed,
    3 aborted, 6 failed-with-output, 7 timed-out, 9 unsupported and 10
    log-limit-exceeded; the build-step-status codes are exactly 0, 1, 4, 7,
    8, 9, 10 and 100, where 100 is "busy", the one status that is not stored
    for a finished step. *)
Theorem status_codes_exact :
  map BuildStatus_code
    [bsSuccess; bsFailed; bsDepFailed; bsAborted; bsFailedWithOutput;
     bsTimedOut; bsUnsupported; bsLogLimitExceeded]
  = [0; 1; 2; 3; 6; 7; 9; 10]
  ∧ (∀ z, (∃ s, BuildStatus_code s = z) ↔ z ∈ [0; 1; 2; 3; 6; 7; 9; 10])
  ∧ (∀ s s', BuildStatus_code s = BuildStatus_code s' ↔ s = s')
  ∧ (∀ z, (∃ s, BuildStepStatus_code s = z) ↔ z ∈ [0; 1; 4; 7; 8; 9; 10; 100])
  ∧ (∀ s s', BuildStepStatus_code s = BuildStepStatus_code s' ↔ s = s')
  ∧ (∀ s, BuildStepStatus_code s = 100 ↔ s = bssBusy)
  ∧ (∀ s, BuildStepStatus_stored s = true ↔ BuildStepStatus_code s ≠ 100)
  ∧ (∀ s, BuildStepStatus_stored s = true ↔
          BuildStepStatus_code s ∈ [0; 1; 4; 7; 8; 9; 10]).
Proof.
  split; [reflexivity|].
  split.
  { intros z. split.
    - intros [s <-]. destruct s; simpl; in_literals.
    - rewrite !elem_of_cons, elem_of_nil.
      intros [->|[->|[->|[->|[->|[->|[->|[->|[]]]]]]]]];
        [exists bsSuccess | exists bsFailed | exists bsDepFailed
        | exists bsAborted | exists bsFailedWithOutput | exists bsTimedOut
        | exists bsUnsupported | exists bsLogLimitExceeded]; reflexivity. }
  split.
  { intros s s'. split; [|by intros ->].
    destruct s, s'; simpl; intros H; try reflexivity; discriminate H. }
  split.
  { intros z. split.
    - intros [s <-]. destruct s; simpl; in_literals.
    - rewrite !elem_of_cons, elem_of_nil.
      intros [->|[->|[->|[->|[->|[->|[->|[->|[]]]]]]]]];
        [exists bssSuccess | exists bssFailed | exists bssAborted
        | exists bssTimedOut | exists bssCachedFailure | exists bssUnsupported
        | exists bssLogLimitExceeded | exists bssBusy]; reflexivity. }
  split.
  { intros s s'. split; [|by intros ->].
    destruct s, s'; simpl; intros H; try reflexivity; discriminate H. }
  split.
  { intros s. destruct s; simpl; split; intros H; try reflexivity;
      discriminate H. }
  split.
  { intros s. destruct s; simpl; split; intros H; try reflexivity;
      try discriminate H; try (intros H'; discriminate H'); try lia. }
  intros s. destruct s; simpl; split; intros H; try reflexivity;
    try discriminate H; first [in_literals | not_in_literals H].
Qed.

(** ** Retryable results *)

(** C3: a remote result can be retried exactly when its status is transient
    failure or misc failure; success, permanent failure, timeout,
    log-limit-exceeded and output-rejected are never retryable. *)
Theorem canRetry_spec (r : RemoteResult.t) :
  (RemoteResult.canRetry r = true ↔
     RemoteResult.status r = nix.TransientFailure
     ∨ RemoteResult.status r = nix.MiscFailure)
  ∧ (RemoteResult.canRetry r = false ↔
       RemoteResult.status r ∈
         [nix.Success; nix.PermanentFailure; nix.TimedOut;
          nix.LogLimitExceeded; nix.OutputRejected]).
Proof.
  unfold RemoteResult.canRetry.
  destruct (RemoteResult.status r); simpl; split; split; intros H;
    try reflexivity; try discriminate H;
    first [in_literals | not_in_literals H | by left | by right
          | destruct H as [H|H]; discriminate H].
Qed.

(** ** Retry budget *)

Lemma retry_delays :
  map (λ tries, State.retryInterval * State.retryBackoff ^ (tries - 1))
      [1; 2; 3; 4; 5]
  = [60; 180; 540; 1620; 4860].
Proof. reflexivity. Qed.

(** C4: the retry constants are maxTries = 5, retryInterval = 60 and
    retryBackoff = 3; a retryable failure increments the tries counter, a
    counter above 5 makes the failure terminal, and otherwise the retry is
    scheduled at now + 60 * 3^(tries-1). *)
Theorem retry_budget (now tries : Z) :
  State.maxTries = 5
  ∧ State.retryInterval = 60
  ∧ State.retryBackoff = 3
  ∧ (State.retryStep now tries).1 = tries + 1
  ∧ (State.retryStep now tries).2 =
      (if bool_decide (5 < tries + 1) then State.TerminalFailure
       else State.RetryAfter (now + 60 * 3 ^ (tries + 1 - 1))).
Proof.
  repeat split.
  unfold State.retryStep, State.maxTries, State.retryInterval,
    State.retryBackoff. simpl.
  repeat case_bool_decide; try reflexivity; lia.
Qed.

(** ** Jobsets: the window and its counter *)

Section window.

Implicit Types (w : gmap Z Z) (j : Jobset.t).

Lemma total_empty : Jobset.total ∅ = 0.
Proof. unfold Jobset.total. apply map_fold_empty. Qed.

Lemma total_insert w startTime duration :
  w !! startTime = None →
  Jobset.total (<[startTime := duration]> w) = duration + Jobset.total w.
Proof.
  intros Hfresh. unfold Jobset.total.
  rewrite map_fold_insert_L; [done | intros; lia | done].
Qed.

(** A window splits into the entries a predicate keeps and the others. *)
Lemma total_filter_split (P : Z * Z → Prop) `{!∀ e, Decision (P e)} w :
  Jobset.total w
  = Jobset.total (filter P w) + Jobset.total (filter (λ e, ¬ P e) w).
Proof.
  induction w as [|startTime duration w Hfresh IH] using map_ind.
  - by rewrite !map_filter_empty, total_empty.
  - rewrite total_insert by done.
    destruct (decide (P (startTime, duration))) as [HP|HP].
    + rewrite (map_filter_insert_True P) by done.
      rewrite (map_filter_insert_not' (λ e, ¬ P e)); [| tauto |].
      * rewrite total_insert; [lia|].
        rewrite map_lookup_filter_None. by left.
      * intros y Hy. congruence.
    + rewrite (map_filter_insert_True (λ e, ¬ P e)) by done.
      rewrite (map_filter_insert_not' P); [| done |].
      * rewrite (total_insert (filter _ w)); [lia|].
        rewrite map_lookup_filter_None. by left.
      * intros y Hy. congruence.
Qed.

Lemma consistent_new : Jobset.consistent Jobset.new.
Proof. unfold Jobset.consistent. simpl. by rewrite total_empty. Qed.

Lemma consistent_setShares j shares_ j' :
  Jobset.consistent j → Jobset.setShares shares_ j = Some j' →
  Jobset.consistent j'.
Proof.
  unfold Jobset.consistent, Jobset.setShares. intros Hc.
  case_bool_decide; [|done]. intros [= <-]. done.
Qed.

(** Recording a step under a start time that is not in the window keeps
    the counter in step with the window. *)
Lemma consistent_addStep j startTime duration :
  Jobset.consistent j → Jobset.steps j !! startTime = None →
  Jobset.consistent (Jobset.addStep startTime duration j).
Proof.
  unfold Jobset.consistent, Jobset.addStep. simpl. intros -> Hfresh.
  rewrite total_insert by done. lia.
Qed.

Lemma consistent_pruneSteps j now :
  Jobset.consistent j → Jobset.consistent (Jobset.pruneSteps now j).
Proof.
  unfold Jobset.consistent, Jobset.pruneSteps. simpl. intros ->.
  rewrite (total_filter_split (Jobset.in_window now) (Jobset.steps j)) at 1.
  lia.
Qed.


Lemma pruneSteps_idempotent j now :
  Jobset.pruneSteps now (Jobset.pruneSteps now j) = Jobset.pruneSteps now j.
Proof.
  unfold Jobset.pruneSteps. simpl.
  assert (Hnone : filter (λ e, ¬ Jobset.in_window now e)
                    (filter (Jobset.in_window now) (Jobset.steps j)) = ∅).
  { apply map_empty. intros i. rewrite map_lookup_filter_None. right.
    intros x [_ Hin]%map_lookup_filter_Some. tauto. }
  rewrite Hnone, total_empty, Z.sub_0_r.
  rewrite map_filter_filter.
  f_equal. apply map_filter_ext. intros; tauto.
Qed.

Lemma recorded_reachable j : Jobset.recorded j → Jobset.reachable j.
Proof.
  induction 1; eauto using Jobset.reachable_new, Jobset.reachable_setShares,
    Jobset.reachable_addStep, Jobset.reachable_pruneSteps.
Qed.

(** The counter agrees with the window in every such state. *)
Lemma recorded_consistent j : Jobset.recorded j → Jobset.consistent j.
Proof.
  induction 1; eauto using consistent_new, consistent_setShares,
    consistent_addStep, consistent_pruneSteps.
Qed.

(** The shares of a reachable jobset are a positive [int]. *)
Lemma reachable_shares_range j :
  Jobset.reachable j → 1 ≤ Jobset.shares j ≤ INT_MAX.
Proof.
  induction 1 as [| j n j' _ IH Hint Hset | j st d _ IH | j now _ IH];
    simpl; try done.
  unfold Jobset.setShares in Hset.
  case_bool_decide as Hpos; [|done]. injection Hset as <-. simpl.
  unfold is_int, INT_MIN, INT_MAX, uint_bits in *.
  apply andb_true_iff in Hint as [_ Hle%Z.leb_le].
  unfold int_to_uint, uint_bits. rewrite Z.mod_small; lia.
Qed.

End window.

(** ** Jobsets: share used *)

(** The counter agrees with the pruned window exactly when it agreed with
    the window before pruning. *)
Lemma pruned_counter_iff (j : Jobset.t) (now : Z) :
  Jobset.getSeconds (Jobset.pruneSteps now j)
  = Jobset.total (Jobset.steps (Jobset.pruneSteps now j))
  ↔ Jobset.consistent j.
Proof.
  unfold Jobset.consistent, Jobset.getSeconds, Jobset.pruneSteps. simpl.
  rewrite (total_filter_split (Jobset.in_window now) (Jobset.steps j)).
  lia.
Qed.




(** The example in numbers: after pruning at time 100000 only the 30 s step
    is left, and with 10 shares the share used is 30 / 10. *)
Example example_jobset_share :
  @Jobset.shareUsed exact_double (Jobset.pruneSteps 100000 example_jobset)
  = (30 / 10)%Q.
Proof. vm_compute. reflexivity. Qed.

(** C6: the shares of a jobset are strictly positive at all times: a new
    jobset has one share, [setShares] aborts on an argument that is not
    positive, and every state reached through the member functions has
    positive shares. *)
Theorem shares_positive (j : Jobset.t) (Hr : Jobset.reachable j) :
  0 < Jobset.shares Jobset.new
  ∧ 0 < Jobset.shares j
  ∧ (∀ shares_, Jobset.setShares shares_ j = None ↔ shares_ ≤ 0).
Proof.
  split; [done|].
  split; [pose proof (reachable_shares_range j Hr); lia|].
  intros n. unfold Jobset.setShares. case_bool_decide; split; intros; try done; lia.
Qed.

Lemma shares_positive_witness :
  Jobset.reachable (Jobset.mk 0 10 ∅)
  ∧ 0 < Jobset.shares (Jobset.mk 0 10 ∅).
Proof.
  assert (Hr : Jobset.reachable (Jobset.mk 0 10 ∅)).
  { eapply (Jobset.reachable_setShares Jobset.new 10);
      [apply Jobset.reachable_new | reflexivity | reflexivity]. }
  split; [exact Hr|].
  apply (shares_positive _ Hr).
Defined.

(** C9: [shareUsed] never divides by zero: a new jobset has one share and
    every state reached through the member functions has at least one, so
    the instrumented division always returns the quotient. *)
Theorem shareUsed_divisor_nonzero `{DoubleOps} (j : Jobset.t)
    (Hr : Jobset.reachable j) :
  Jobset.shares Jobset.new = 1
  ∧ 1 ≤ Jobset.shares j
  ∧ Jobset.shareUsed_checked j = Some (Jobset.shareUsed j)
  ∧ (∀ shares_ j', Jobset.setShares shares_ j = Some j' →
       is_int shares_ = true → 1 ≤ Jobset.shares j').
Proof.
  pose proof (reachable_shares_range j Hr) as Hrange.
  split; [done|]. split; [lia|]. split.
  - unfold Jobset.shareUsed_checked. case_bool_decide; [lia | done].
  - intros n j' Hset Hint.
    pose proof (reachable_shares_range j'
                  (Jobset.reachable_setShares j n j' Hr Hint Hset)).
    lia.
Qed.

Lemma shareUsed_divisor_nonzero_witness :
  Jobset.reachable (Jobset.pruneSteps 100000 example_jobset)
  ∧ @Jobset.shareUsed_checked exact_double
      (Jobset.pruneSteps 100000 example_jobset)
    = Some (@Jobset.shareUsed exact_double
              (Jobset.pruneSteps 100000 example_jobset)).
Proof.
  assert (Hr : Jobset.reachable (Jobset.pruneSteps 100000 example_jobset)).
  { apply Jobset.reachable_pruneSteps.
    unfold example_jobset. do 2 apply Jobset.reachable_addStep.
    eapply (Jobset.reachable_setShares Jobset.new 10);
      [apply Jobset.reachable_new | reflexivity | reflexivity]. }
  split; [exact Hr|].
  apply (@shareUsed_divisor_nonzero exact_double _ Hr).
Defined.

(** ** Builds: finalisation in the database *)

Section finalisation.

Implicit Types (st : Build.t * Build.DB) (ops : list Build.op).

Lemma flags_head ops st :
  ∃ rest, Build.flags ops st = Build.finishedInDB st.1 :: rest.
Proof. destruct ops; simpl; eauto. Qed.

(** No operation clears the flag. *)
Lemma step_keeps_finished o st :
  Build.finishedInDB st.1 = true →
  Build.finishedInDB (Build.step o st).1 = true.
Proof.
  destruct st as [b db], o as [status|l g]; simpl; intros Hfin.
  - by rewrite Hfin.
  - done.
Qed.

Lemma flags_never_fall ops st :
  Build.transitions true false (Build.flags ops st) = 0%nat.
Proof.
  revert st. induction ops as [|o ops IH]; intros st; [done|].
  unfold Build.flags in *. simpl.
  destruct (flags_head ops (Build.step o st)) as [rest Hrest].
  unfold Build.flags in Hrest. specialize (IH (Build.step o st)).
  rewrite Hrest in *. rewrite IH.
  case_bool_decide as Hfall; [|done].
  destruct Hfall as [Hx Hy].
  rewrite (step_keeps_finished o st Hx) in Hy. discriminate Hy.
Qed.

Lemma flags_rise_once ops st :
  (Build.transitions false true (Build.flags ops st)
   ≤ if Build.finishedInDB st.1 then 0 else 1)%nat.
Proof.
  revert st. induction ops as [|o ops IH]; intros st.
  { simpl. destruct (Build.finishedInDB st.1); lia. }
  unfold Build.flags in *. simpl.
  destruct (flags_head ops (Build.step o st)) as [rest Hrest].
  unfold Build.flags in Hrest. specialize (IH (Build.step o st)).
  rewrite Hrest in *.
  case_bool_decide as Hrise.
  - destruct Hrise as [Hx Hy]. rewrite Hx. rewrite Hy in IH |- *. lia.
  - destruct (Build.finishedInDB st.1) eqn:Hx.
    + rewrite (step_keeps_finished o st Hx) in IH |- *. lia.
    + destruct (Build.finishedInDB (Build.step o st).1) eqn:Hy; [|lia].
      exfalso. apply Hrise. done.
Qed.

(** Every row written is matched by a rise of the flag. *)
Lemma rows_match_rises ops st :
  length (Build.run ops st).2
  = (length st.2 + Build.transitions false true (Build.flags ops st))%nat.
Proof.
  revert st. induction ops as [|o ops IH]; intros st.
  { simpl. lia. }
  unfold Build.run in *. simpl. rewrite IH.
  unfold Build.flags. simpl.
  destruct (flags_head ops (Build.step o st)) as [rest Hrest].
  unfold Build.flags in Hrest. rewrite Hrest.
  destruct st as [b db], o as [status|l g]; simpl.
  - destruct (Build.finishedInDB b) eqn:Hfin; simpl;
      rewrite ?Hfin, ?length_app; simpl; lia.
  - case_bool_decide as Hrise; [|lia].
    destruct Hrise as [Hx Hy]. congruence.
Qed.

End finalisation.

(** C7: the [finishedInDB] flag of a build starts false, never goes from true
    back to false, and goes from false to true at most once in the life of
    the build: at most one finalisation row is written for it. *)
Theorem finishedInDB_once (id : Z) (drvPath : string)
    (outputs : gmap string string) (projectName jobsetName jobName : string)
    (timestamp maxSilentTime buildTimeout localPriority globalPriority : Z)
    (ops : list Build.op) :
  let b := Build.create id drvPath outputs projectName jobsetName jobName
             timestamp maxSilentTime buildTimeout localPriority globalPriority
  in
  Build.finishedInDB b = false
  ∧ Build.transitions true false (Build.flags ops (b, [])) = 0%nat
  ∧ (Build.transitions false true (Build.flags ops (b, [])) ≤ 1)%nat
  ∧ (length (Build.run ops (b, [])).2 ≤ 1)%nat.
Proof.
  intros b. split; [reflexivity|].
  split; [apply flags_never_fall|].
  pose proof (flags_rise_once ops (b, [])) as Hrise. simpl in Hrise.
  split; [exact Hrise|].
  rewrite rows_match_rises. simpl. exact Hrise.
Qed.

Example example_build_flags :
  Build.flags
    [Build.BumpPriority 0 100; Build.Finalize bsSuccess;
     Build.Finalize bsDepFailed; Build.BumpPriority 5 5]
    (example_build, [])
  = [false; false; true; true; true]
  ∧ (Build.run
       [Build.BumpPriority 0 100; Build.Finalize bsSuccess;
        Build.Finalize bsDepFailed; Build.BumpPriority 5 5]
       (example_build, [])).2
    = [(1, bsSuccess)].
Proof. split; reflexivity. Qed.

(** ** Steps: the system type *)

Section system_type.

Implicit Types (features : gset string) (l : list string).

Lemma sorted_features_Permutation features :
  Step.sorted_features features ≡ₚ elements features.
Proof. apply merge_sort_Permutation. Qed.




End system_type.


(** Without a separator the concatenation also merges different feature
    sets: ["big-parallel"; "kvm"] and ["big-parallelkvm"] give one
    [systemType], and a machine supports the first and not the second. *)
Example example_key_collision :
  Step.systemType
    (Step.create "/nix/store/a.drv" (nix.mkDerivation "x86_64-linux")
       {["big-parallel"; "kvm"]} false)
  = Step.systemType
      (Step.create "/nix/store/b.drv" (nix.mkDerivation "x86_64-linux")
         {["big-parallelkvm"]} false)
  ∧ Machine.supportsStep example_big_machine
      (Step.create "/nix/store/a.drv" (nix.mkDerivation "x86_64-linux")
         {["big-parallel"; "kvm"]} false)
    = true
  ∧ Machine.supportsStep example_big_machine
      (Step.create "/nix/store/b.drv" (nix.mkDerivation "x86_64-linux")
         {["big-parallelkvm"]} false)
    = false.
Proof. repeat split; vm_compute; reflexivity. Qed.


Example example_step_key :
  Step.systemType
    (Step.create "/nix/store/vm-test.drv" (nix.mkDerivation "x86_64-linux")
       {["kvm"; "big-parallel"]} false)
  = "x86_64-linuxbig-parallelkvm".
Proof. vm_compute. reflexivity. Qed.

(** ** Steps: the initial state *)

(** C10 as stated fails on its last clause: a build with the default
    priorities 0 does not strictly improve the extrema cached in a new step
    state, whose priorities start at 0 as well. *)
Lemma newState_not_strictly_improved :
  Build.well_typed example_build
  ∧ ¬ strictly_improves example_build (Step.newState (D := Q)).
Proof.
  split.
  - repeat split.
  - intros (Hglobal & _). vm_compute in Hglobal. discriminate Hglobal.
Qed.

(** C10 (amended): a new [Step::State] has [created = false], [tries = 0],
    empty [deps], [rdeps], [builds] and [jobsets], both cached priorities 0,
    [lowestBuildID = 2^32 - 1] and no value in [lowestShareUsed].  No build
    id lies above the cached [lowestBuildID], and it lies strictly below
    unless it is [2^32 - 1] itself; a build's priority lies strictly above a
    cached priority exactly when it is positive. *)
Theorem newState_defaults {D : Type} (b : Build.t)
    (Hb : Build.well_typed b) :
  let s := Step.newState (D := D) in
  Step.created s = false
  ∧ Step.tries s = 0
  ∧ Step.deps s = ∅
  ∧ Step.rdeps s = []
  ∧ Step.builds s = []
  ∧ Step.jobsets s = ∅
  ∧ Step.highestGlobalPriority s = 0
  ∧ Step.highestLocalPriority s = 0
  ∧ Step.lowestBuildID s = 2 ^ 32 - 1
  ∧ Step.lowestShareUsed s = None
  ∧ Z.min (Step.lowestBuildID s) (Build.id b) = Build.id b
  ∧ (Build.id b < Step.lowestBuildID s ↔ Build.id b ≠ 2 ^ 32 - 1)
  ∧ (Step.highestGlobalPriority s < Build.globalPriority b ↔
       0 < Build.globalPriority b)
  ∧ (Step.highestLocalPriority s < Build.localPriority b ↔
       0 < Build.localPriority b)
  ∧ (strictly_improves b s ↔
       0 < Build.globalPriority b ∧ 0 < Build.localPriority b
       ∧ Build.id b ≠ 2 ^ 32 - 1).
Proof.
  destruct Hb as (Hid & _ & _).
  apply andb_true_iff in Hid as [Hlo%Z.leb_le Hhi%Z.leb_le].
  unfold strictly_improves. simpl.
  change BuildID_max with (2 ^ 32 - 1) in *.
  change UINT_MAX with (2 ^ 32 - 1) in *.
  repeat split; try reflexivity; try lia.
Qed.

Lemma newState_defaults_witness :
  Build.well_typed example_build
  ∧ Step.lowestBuildID (Step.newState (D := Q)) = 2 ^ 32 - 1
  ∧ Z.min (Step.lowestBuildID (Step.newState (D := Q)))
          (Build.id example_build)
    = Build.id example_build.
Proof.
  assert (Hb : Build.well_typed example_build) by (repeat split).
  split; [exact Hb|].
  pose proof (newState_defaults (D := Q) example_build Hb) as H.
  simpl in H. split; [apply H | apply H].
Defined.

(* ===================================================================== *)
(** * Part III: further properties of the header's functions              *)
(* ===================================================================== *)

(** ** [Machine::supportsStep] *)

Section supports_step.

Implicit Types (m : Machine.t) (step : Step.t) (f : string).

Lemma mandatory_missing_false step f :
  Machine.mandatory_missing step f = false ↔
  f ∈ Step.requiredSystemFeatures step
  ∨ (f = "local" ∧ Step.preferLocalBuild step = true).
Proof.
  unfold Machine.mandatory_missing.
  rewrite andb_false_iff, negb_false_iff, andb_true_iff,
    bool_decide_eq_false, bool_decide_eq_true.
  destruct (decide (f ∈ Step.requiredSystemFeatures step)); tauto.
Qed.

Lemma unsupported_false m f :
  Machine.unsupported m f = false ↔ f ∈ Machine.supportedFeatures m.
Proof.
  unfold Machine.unsupported. rewrite bool_decide_eq_false.
  destruct (decide (f ∈ Machine.supportedFeatures m)); tauto.
Qed.

(** The value of [supportsStep] in terms of the three tests it performs. *)
Lemma supportsStep_tests m step :
  Machine.supportsStep m step = true ↔
  nix.platform (Step.drv step) ∈ Machine.systemTypes m
  ∧ (∀ f, f ∈ Machine.mandatoryFeatures m →
       Machine.mandatory_missing step f = false)
  ∧ (∀ f, f ∈ Step.requiredSystemFeatures step →
       Machine.unsupported m f = false).
Proof.
  unfold Machine.supportsStep. case_bool_decide as Hplat.
  - split; [done | tauto].
  - rewrite !for_return_false_true.
    setoid_rewrite elem_of_elements.
    destruct (decide (nix.platform (Step.drv step) ∈ Machine.systemTypes m));
      [tauto | contradiction].
Qed.

Lemma for_return_false_Permutation {A : Type} (xs ys : list A)
    (cond : A → bool) (rest : bool) :
  xs ≡ₚ ys →
  for_return_false xs cond rest = for_return_false ys cond rest.
Proof.
  intros Hperm. apply eq_true_iff_eq. rewrite !for_return_false_true.
  by setoid_rewrite Hperm.
Qed.

End supports_step.

(** X1: support is monotone in the machine: a machine that declares at least
    the system types and supported features of another one, and mandates at
    most its mandatory features, supports every step the other supports. *)
Theorem supportsStep_monotone (m m' : Machine.t) (step : Step.t)
    (Hsys : Machine.systemTypes m ⊆ Machine.systemTypes m')
    (Hsup : Machine.supportedFeatures m ⊆ Machine.supportedFeatures m')
    (Hman : Machine.mandatoryFeatures m' ⊆ Machine.mandatoryFeatures m)
    (Hm : Machine.supportsStep m step = true) :
  Machine.supportsStep m' step = true.
Proof.
  apply supportsStep_tests in Hm as (Hplat & Hmand & Hreq).
  apply supportsStep_tests. split; [by apply Hsys|]. split.
  - intros f Hf. apply Hmand. by apply Hman.
  - intros f Hf. apply unsupported_false.
    specialize (Hreq f Hf). apply unsupported_false in Hreq. by apply Hsup.
Qed.

Lemma supportsStep_monotone_witness :
  Machine.supportsStep example_machine example_step = true
  ∧ Machine.supportsStep example_big_machine example_step = true.
Proof.
  assert (Hm : Machine.supportsStep example_machine example_step = true)
    by (vm_compute; reflexivity).
  split; [exact Hm|].
  apply (supportsStep_monotone example_machine example_big_machine
           example_step); [| | | exact Hm].
  - apply (bool_decide_unpack _). vm_compute. exact I.
  - apply (bool_decide_unpack _). vm_compute. exact I.
  - apply (bool_decide_unpack _). vm_compute. exact I.
Defined.

(** X2: a machine with a mandatory feature that it does not list as
    supported runs no step that feature applies to: whatever the step, it is
    refused unless the feature is "local" and the step prefers a local
    build. *)
Theorem supportsStep_mandatory_unsupported (m : Machine.t) (step : Step.t)
    (f : string)
    (Hman : f ∈ Machine.mandatoryFeatures m)
    (Hsup : f ∉ Machine.supportedFeatures m)
    (Hloc : f ≠ "local" ∨ Step.preferLocalBuild step = false) :
  Machine.supportsStep m step = false.
Proof.
  destruct (Machine.supportsStep m step) eqn:Hm; [|reflexivity].
  exfalso. apply supportsStep_tests in Hm as (_ & Hmand & Hreq).
  specialize (Hmand f Hman). apply mandatory_missing_false in Hmand.
  destruct Hmand as [Hin | [Heq Hpref]].
  - specialize (Hreq f Hin). apply unsupported_false in Hreq. contradiction.
  - destruct Hloc as [Hne | Hnp]; [contradiction | congruence].
Qed.

Lemma supportsStep_mandatory_unsupported_witness :
  Machine.supportsStep
    (Machine.mk true "root@build3" "" {["x86_64-linux"]} ∅ {["kvm"]} 1 "")
    example_step
  = false.
Proof.
  apply (supportsStep_mandatory_unsupported _ example_step "kvm").
  - apply (bool_decide_unpack _). vm_compute. exact I.
  - apply (bool_decide_unpack _). vm_compute. exact I.
  - left. discriminate.
Defined.

(** Support of a step that requires no system feature. *)
Lemma supportsStep_featureless (m : Machine.t) (step : Step.t)
    (Hnone : Step.requiredSystemFeatures step = ∅) :
  Machine.supportsStep m step = true ↔
  nix.platform (Step.drv step) ∈ Machine.systemTypes m
  ∧ Machine.mandatoryFeatures m
    ⊆ (if Step.preferLocalBuild step then {["local"]} else ∅).
Proof.
  rewrite supportsStep_tests. rewrite Hnone.
  setoid_rewrite mandatory_missing_false. rewrite Hnone.
  split.
  - intros (Hplat & Hmand & _). split; [done|].
    intros f Hf. destruct (Hmand f Hf) as [Hin | [-> ->]].
    + by apply not_elem_of_empty in Hin.
    + by apply elem_of_singleton.
  - intros (Hplat & Hsub). split; [done|]. split.
    + intros f Hf. right. specialize (Hsub f Hf).
      destruct (Step.preferLocalBuild step).
      * by apply elem_of_singleton in Hsub.
      * by apply not_elem_of_empty in Hsub.
    + intros f Hf. by apply not_elem_of_empty in Hf.
Qed.

(** X3: a step that requires no system feature is supported exactly by the
    machines of its platform that mandate nothing, or nothing but "local"
    when the step prefers a local build. *)
Theorem supportsStep_no_features (m : Machine.t) (step : Step.t)
    (Hnone : Step.requiredSystemFeatures step = ∅) :
  Machine.supportsStep m step = true ↔
  nix.platform (Step.drv step) ∈ Machine.systemTypes m
  ∧ Machine.mandatoryFeatures m
    ⊆ (if Step.preferLocalBuild step then {["local"]} else ∅).
Proof. exact (supportsStep_featureless m step Hnone). Qed.

Lemma supportsStep_no_features_witness :
  Machine.supportsStep example_big_machine
    (Step.mk "/nix/store/hello.drv" (nix.mkDerivation "i686-linux") ∅ false
       "i686-linux")
  = true.
Proof.
  apply (supportsStep_no_features example_big_machine
           (Step.mk "/nix/store/hello.drv" (nix.mkDerivation "i686-linux") ∅
              false "i686-linux")
           eq_refl).
  split.
  - apply (bool_decide_unpack _). vm_compute. exact I.
  - apply (bool_decide_unpack _). vm_compute. exact I.
Defined.

(** X4: preferring a local build never costs a machine: of two steps with
    the same platform and required features, the one that prefers a local
    build is supported wherever the other is. *)
Theorem supportsStep_preferLocalBuild_monotone (m : Machine.t)
    (step step' : Step.t)
    (Hplat : nix.platform (Step.drv step) = nix.platform (Step.drv step'))
    (Hreq : Step.requiredSystemFeatures step
            = Step.requiredSystemFeatures step')
    (Hpref : Step.preferLocalBuild step' = true)
    (Hm : Machine.supportsStep m step = true) :
  Machine.supportsStep m step' = true.
Proof.
  apply supportsStep_tests in Hm as (Hp & Hmand & Hsup).
  apply supportsStep_tests. rewrite <- Hplat, <- Hreq.
  split; [done|]. split; [|done].
  intros f Hf. specialize (Hmand f Hf).
  apply mandatory_missing_false in Hmand. apply mandatory_missing_false.
  rewrite <- Hreq, Hpref. tauto.
Qed.

Lemma supportsStep_preferLocalBuild_monotone_witness :
  Machine.supportsStep example_machine example_step = true
  ∧ Machine.supportsStep example_machine
      (Step.mk "/nix/store/vm-test-2.drv" (nix.mkDerivation "x86_64-linux")
         {["kvm"]} true "")
    = true.
Proof.
  assert (Hm : Machine.supportsStep example_machine example_step = true)
    by (vm_compute; reflexivity).
  split; [exact Hm|].
  apply (supportsStep_preferLocalBuild_monotone example_machine example_step);
    [reflexivity | reflexivity | reflexivity | exact Hm].
Defined.

(** X5: the preference for a local build matters only to a machine that
    mandates "local", and only for a step that does not require "local"
    itself; otherwise [supportsStep] is decided by the platform and the
    required features alone (the derivation path and the cached system type
    play no part either). *)
Theorem supportsStep_preferLocalBuild_irrelevant (m : Machine.t)
    (step step' : Step.t)
    (Hplat : nix.platform (Step.drv step) = nix.platform (Step.drv step'))
    (Hreq : Step.requiredSystemFeatures step
            = Step.requiredSystemFeatures step')
    (Hlocal : "local" ∉ Machine.mandatoryFeatures m
              ∨ "local" ∈ Step.requiredSystemFeatures step) :
  Machine.supportsStep m step = Machine.supportsStep m step'.
Proof.
  apply eq_true_iff_eq. rewrite !supportsStep_tests.
  rewrite <- Hplat, <- Hreq.
  assert (Hsame : ∀ f, f ∈ Machine.mandatoryFeatures m →
            (Machine.mandatory_missing step f = false ↔
             Machine.mandatory_missing step' f = false)).
  { intros f Hf. rewrite !mandatory_missing_false, <- Hreq.
    split; (intros [Hin | [-> _]]; [by left|]);
      (destruct Hlocal as [Hnot | Hin]; [contradiction | by left]). }
  split; intros (Hp & Hmand & Hsup); (split; [done|]); (split; [|done]);
    intros f Hf; by apply (Hsame f Hf), Hmand.
Qed.

Lemma supportsStep_preferLocalBuild_irrelevant_witness :
  Machine.supportsStep example_machine example_step
  = Machine.supportsStep example_machine
      (Step.mk "/nix/store/vm-test-2.drv" (nix.mkDerivation "x86_64-linux")
         {["kvm"]} true "").
Proof.
  apply (supportsStep_preferLocalBuild_irrelevant example_machine
           example_step); [reflexivity | reflexivity |].
  left. apply (bool_decide_unpack _). vm_compute. exact I.
Defined.

(** X13: a machine that lists no supported feature takes exactly the steps
    of its platforms that require no feature, and only if it mandates
    nothing, or nothing but "local" for a step that prefers a local build. *)
Theorem supportsStep_no_supported (m : Machine.t) (step : Step.t)
    (Hnone : Machine.supportedFeatures m = ∅) :
  Machine.supportsStep m step = true ↔
  nix.platform (Step.drv step) ∈ Machine.systemTypes m
  ∧ Step.requiredSystemFeatures step = ∅
  ∧ Machine.mandatoryFeatures m
    ⊆ (if Step.preferLocalBuild step then {["local"]} else ∅).
Proof.
  split.
  - intros Hm.
    assert (Hreq : Step.requiredSystemFeatures step = ∅).
    { apply supportsStep_tests in Hm as (_ & _ & Hsup).
      apply leibniz_equiv, elem_of_equiv_empty. intros f Hf.
      specialize (Hsup f Hf). apply unsupported_false in Hsup.
      rewrite Hnone in Hsup. by apply not_elem_of_empty in Hsup. }
    apply (supportsStep_featureless m step Hreq) in Hm as [Hplat Hman].
    done.
  - intros (Hplat & Hreq & Hman).
    by apply (supportsStep_featureless m step Hreq).
Qed.

Lemma supportsStep_no_supported_witness :
  Machine.supportsStep
    (Machine.mk true "localhost" "" {["x86_64-linux"]} ∅ {["local"]} 2 "")
    (Step.mk "/nix/store/kernel.drv" (nix.mkDerivation "x86_64-linux") ∅
       true "x86_64-linux")
  = true.
Proof.
  apply (supportsStep_no_supported
           (Machine.mk true "localhost" "" {["x86_64-linux"]} ∅ {["local"]}
              2 "")
           (Step.mk "/nix/store/kernel.drv" (nix.mkDerivation "x86_64-linux")
              ∅ true "x86_64-linux")
           eq_refl).
  split; [|split].
  - apply (bool_decide_unpack _). vm_compute. exact I.
  - reflexivity.
  - apply (bool_decide_unpack _). vm_compute. exact I.
Defined.

(** X6: the answer of [supportsStep] does not depend on the order in which
    its two loops meet the members of the sets: walking both sets in
    ascending order, as [std::set] does, gives the same result. *)
Theorem supportsStep_set_order (m : Machine.t) (step : Step.t) :
  Machine.supportsStep m step
  = if bool_decide (nix.platform (Step.drv step) ∉ Machine.systemTypes m)
    then false
    else
      for_return_false (Step.sorted_features (Machine.mandatoryFeatures m))
        (Machine.mandatory_missing step)
        (for_return_false
           (Step.sorted_features (Step.requiredSystemFeatures step))
           (Machine.unsupported m)
           true).
Proof.
  unfold Machine.supportsStep. case_bool_decide; [reflexivity|].
  rewrite (for_return_false_Permutation _ _ _ _
             (sorted_features_Permutation (Step.requiredSystemFeatures step))).
  apply eq_sym, for_return_false_Permutation, sorted_features_Permutation.
Qed.

(** ** [Jobset::setShares] and [Jobset::shareUsed] *)

(** X7: [setShares] with a positive [int] stores exactly that number (the
    conversion to the unsigned member loses nothing), leaves the seconds and
    the recorded steps alone, and [shareUsed] then divides the unchanged
    seconds by the new shares. *)
Theorem setShares_stores `{DoubleOps} (j : Jobset.t) (shares_ : Z)
    (Hint : is_int shares_ = true) (Hpos : 0 < shares_) :
  ∃ j', Jobset.setShares shares_ j = Some j'
        ∧ Jobset.shares j' = shares_
        ∧ Jobset.getSeconds j' = Jobset.getSeconds j
        ∧ Jobset.steps j' = Jobset.steps j
        ∧ Jobset.shareUsed j'
          = fdiv (of_time_t (Jobset.getSeconds j)) (of_uint shares_).
Proof.
  unfold Jobset.setShares. rewrite bool_decide_eq_true_2 by lia.
  eexists. split; [reflexivity|].
  assert (Hconv : int_to_uint shares_ = shares_).
  { apply andb_true_iff in Hint as [_ Hle%Z.leb_le].
    unfold INT_MAX, uint_bits in Hle. unfold int_to_uint, uint_bits.
    apply Z.mod_small. lia. }
  unfold Jobset.shareUsed, Jobset.getSeconds. simpl. rewrite Hconv.
  repeat split.
Qed.

Lemma setShares_stores_witness :
  ∃ j', Jobset.setShares 100 example_jobset = Some j'
        ∧ Jobset.shares j' = 100
        ∧ Jobset.getSeconds j' = Jobset.getSeconds example_jobset
        ∧ Jobset.steps j' = Jobset.steps example_jobset
        ∧ @Jobset.shareUsed exact_double j'
          = @fdiv exact_double
              (@of_time_t exact_double (Jobset.getSeconds example_jobset))
              (@of_uint exact_double 100).
Proof.
  apply (@setShares_stores exact_double example_jobset 100);
    [reflexivity | lia].
Defined.

(** X8: of two calls of [setShares] in a row the second one decides the
    result, provided the first one passes its assertion; a first call with an
    argument that is not positive aborts, whatever the second would do. *)
Theorem setShares_last_wins (j : Jobset.t) (shares1 shares2 : Z) :
  Jobset.setShares shares1 j ≫= Jobset.setShares shares2
  = if bool_decide (0 < shares1) then Jobset.setShares shares2 j else None.
Proof.
  unfold Jobset.setShares.
  destruct (decide (0 < shares1)) as [Hpos|Hneg].
  - rewrite (bool_decide_eq_true_2 (shares1 > 0)) by lia.
    rewrite (bool_decide_eq_true_2 (0 < shares1)) by lia. reflexivity.
  - rewrite (bool_decide_eq_false_2 (shares1 > 0)) by lia.
    rewrite (bool_decide_eq_false_2 (0 < shares1)) by lia. reflexivity.
Qed.

(** X9: the shares of a jobset never exceed the largest [int], 2^31 - 1, so
    the value is the same number as an [int] and as an [unsigned int], and
    handing the current shares back to [setShares] changes nothing. *)
Theorem shares_fit_int (j : Jobset.t) (Hr : Jobset.reachable j) :
  Jobset.shares j ≤ 2 ^ 31 - 1
  ∧ is_int (Jobset.shares j) = true
  ∧ is_uint (Jobset.shares j) = true
  ∧ int_to_uint (Jobset.shares j) = Jobset.shares j
  ∧ Jobset.setShares (Jobset.shares j) j = Some j.
Proof.
  pose proof (reachable_shares_range j Hr) as [Hlo Hhi].
  change INT_MAX with (2 ^ 31 - 1) in Hhi.
  assert (Hconv : int_to_uint (Jobset.shares j) = Jobset.shares j).
  { unfold int_to_uint, uint_bits. apply Z.mod_small. lia. }
  split; [exact Hhi|]. split.
  { unfold is_int. change INT_MIN with (- 2 ^ 31).
    change INT_MAX with (2 ^ 31 - 1).
    apply andb_true_iff. split; apply Z.leb_le; lia. }
  split.
  { unfold is_uint. change UINT_MAX with (2 ^ 32 - 1).
    apply andb_true_iff. split; apply Z.leb_le; lia. }
  split; [exact Hconv|].
  unfold Jobset.setShares. rewrite bool_decide_eq_true_2 by lia.
  rewrite Hconv. by destruct j.
Qed.

Lemma shares_fit_int_witness :
  Jobset.reachable (Jobset.addStep 5 7 (Jobset.mk 0 2147483647 ∅))
  ∧ Jobset.setShares 2147483647 (Jobset.addStep 5 7 (Jobset.mk 0 2147483647 ∅))
    = Some (Jobset.addStep 5 7 (Jobset.mk 0 2147483647 ∅)).
Proof.
  assert (Hr : Jobset.reachable
                 (Jobset.addStep 5 7 (Jobset.mk 0 2147483647 ∅))).
  { apply Jobset.reachable_addStep.
    eapply (Jobset.reachable_setShares Jobset.new 2147483647);
      [apply Jobset.reachable_new | reflexivity | reflexivity]. }
  split; [exact Hr|].
  apply (shares_fit_int _ Hr).
Defined.

(** ** [Build::fullJobName] *)

Section full_job_name.

Implicit Types (a r x : string).

Lemma append_nil r : "" +:+ r = r.
Proof. reflexivity. Qed.

Lemma append_cons c a r : String c a +:+ r = String c (a +:+ r).
Proof. reflexivity. Qed.

Lemma append_assoc a r x : (a +:+ r) +:+ x = a +:+ (r +:+ x).
Proof.
  induction a as [|c a IH]; [reflexivity|].
  by rewrite !append_cons, IH.
Qed.

(** A string without a colon is recovered from what follows it up to the
    first colon. *)
Lemma split_at_colon a a' r r' :
  has_colon a = false → has_colon a' = false →
  a +:+ ":" +:+ r = a' +:+ ":" +:+ r' → a = a' ∧ r = r'.
Proof.
  revert a'. induction a as [|c a IH]; intros [|c' a'] Ha Ha' Heq;
    repeat first [rewrite append_nil in Heq | rewrite append_cons in Heq];
    simpl in Ha, Ha'.
  - by injection Heq as ->.
  - injection Heq as <- _. by rewrite Ascii.eqb_refl in Ha'.
  - injection Heq as -> _. by rewrite Ascii.eqb_refl in Ha.
  - injection Heq as -> Heq.
    apply orb_false_iff in Ha as [_ Ha]. apply orb_false_iff in Ha' as [_ Ha'].
    destruct (IH a' Ha Ha' Heq) as [-> ->]. done.
Qed.

End full_job_name.

(** X10: [fullJobName] identifies the job: two builds whose project and
    jobset names hold no colon have the same full job name only if their
    project, jobset and job names are the same (the job name may hold
    colons). *)
Theorem fullJobName_inj (b b' : Build.t)
    (Hp : has_colon (Build.projectName b) = false)
    (Hp' : has_colon (Build.projectName b') = false)
    (Hj : has_colon (Build.jobsetName b) = false)
    (Hj' : has_colon (Build.jobsetName b') = false)
    (Heq : Build.fullJobName b = Build.fullJobName b') :
  Build.projectName b = Build.projectName b'
  ∧ Build.jobsetName b = Build.jobsetName b'
  ∧ Build.jobName b = Build.jobName b'.
Proof.
  unfold Build.fullJobName in Heq.
  apply split_at_colon in Heq as [Hproject Heq]; [|done..].
  apply split_at_colon in Heq as [Hjobset Hjob]; [|done..].
  done.
Qed.

Lemma fullJobName_inj_witness :
  Build.fullJobName example_build
  = Build.fullJobName
      (Build.create 2 "/nix/store/hello-2.drv" ∅ "nixpkgs" "trunk" "hello"
         10 60 600 5 100)
  ∧ Build.jobName example_build
    = Build.jobName
        (Build.create 2 "/nix/store/hello-2.drv" ∅ "nixpkgs" "trunk" "hello"
           10 60 600 5 100).
Proof.
  assert (Heq : Build.fullJobName example_build
                = Build.fullJobName
                    (Build.create 2 "/nix/store/hello-2.drv" ∅ "nixpkgs"
                       "trunk" "hello" 10 60 600 5 100)) by reflexivity.
  split; [exact Heq|].
  apply (fullJobName_inj example_build
           (Build.create 2 "/nix/store/hello-2.drv" ∅ "nixpkgs" "trunk"
              "hello" 10 60 600 5 100));
    [reflexivity | reflexivity | reflexivity | reflexivity | exact Heq].
Defined.

(** X11: with a colon in a project or jobset name the full job name is
    ambiguous: moving a piece [x] across the first separator, from the end of
    the project name to the front of the jobset name, does not change it. *)
Theorem fullJobName_colon_shift (b b' : Build.t) (x : string)
    (Hp : Build.projectName b = Build.projectName b' +:+ ":" +:+ x)
    (Hj : Build.jobsetName b' = x +:+ ":" +:+ Build.jobsetName b)
    (Hn : Build.jobName b = Build.jobName b') :
  Build.fullJobName b = Build.fullJobName b'.
Proof.
  unfold Build.fullJobName. rewrite Hp, Hj, Hn.
  by rewrite !append_assoc.
Qed.

Lemma fullJobName_colon_shift_witness :
  Build.projectName
    (Build.create 1 "/nix/store/a.drv" ∅ "nix:os" "trunk" "hello" 0 0 0 0 0)
  ≠ Build.projectName
      (Build.create 2 "/nix/store/b.drv" ∅ "nix" "os:trunk" "hello" 0 0 0 0 0)
  ∧ Build.fullJobName
      (Build.create 1 "/nix/store/a.drv" ∅ "nix:os" "trunk" "hello" 0 0 0 0 0)
    = Build.fullJobName
        (Build.create 2 "/nix/store/b.drv" ∅ "nix" "os:trunk" "hello"
           0 0 0 0 0).
Proof.
  split; [discriminate|].
  apply (fullJobName_colon_shift _ _ "os"); reflexivity.
Defined.

(** ** The two status enumerations side by side *)

(** X12: a build status and a build-step status have the same numeric code
    exactly when they are the same-named outcomes success (0), failed (1),
    timed out (7), unsupported (9) or log limit exceeded (10); the two
    "aborted" enumerators differ (3 against 4), and dep-failed,
    failed-with-output, cached-failure and busy have no counterpart. *)
Theorem status_codes_shared (s : BuildStatus) (s' : BuildStepStatus) :
  BuildStatus_code s = BuildStepStatus_code s' ↔
  (s, s') ∈ [(bsSuccess, bssSuccess); (bsFailed, bssFailed);
             (bsTimedOut, bssTimedOut); (bsUnsupported, bssUnsupported);
             (bsLogLimitExceeded, bssLogLimitExceeded)].
Proof.
  destruct s, s'; simpl; split; intros H; try reflexivity;
    try discriminate H; first [in_literals | not_in_literals H].
Qed.
